(** * Speakez: the bridging header, read by a small C preprocessor

    The repository slice is one file, [src/Speakez/Speakez-Bridging-Header.h].
    Its text is embedded verbatim, line by line.  What the file does to a
    translation unit that includes it is given by a small model of the C
    preprocessor: comment removal (translation phase 3), the split into
    lines, the classification of each line, and the interpretation of the
    directives ([#ifndef], [#define], [#undef], [#include], [#endif]) over
    the trace of the including translation unit.

    The two headers the file includes, [ggml.h] and [whisper.h], belong to
    an external library; they are a parameter of the development
    ([resolve]), never a definition of it. *)

From Stdlib Require Import Ascii String.
From stdpp Require Import base strings list gmap.

Open Scope string_scope.
Open Scope list_scope.

(** ** The text of the header *)

Module Header.

(** The double-quote character (ASCII 34) and the line feed (ASCII 10). *)
Definition dquote : ascii := "034"%char.
Definition newline : ascii := "010"%char.

Definition quoted (s : string) : string :=
  String dquote (s +:+ String dquote EmptyString).

(** [Speakez-Bridging-Header.h], lines 1 to 17.  The file ends without a
    final line feed. *)
Definition header_lines : list string :=
  [ "//";
    "//  Speakez-Bridging-Header.h";
    "//  Speakez";
    "//";
    "//  Bridging header for whisper.cpp integration";
    "//";
    "";
    "#ifndef Speakez_Bridging_Header_h";
    "#define Speakez_Bridging_Header_h";
    "";
    "// Include ggml headers first";
    "#include " +:+ quoted "ggml.h";
    "";
    "// Include whisper.cpp header";
    "#include " +:+ quoted "whisper.h";
    "";
    "#endif /* Speakez_Bridging_Header_h */" ].

Fixpoint join_lines (ls : list string) : string :=
  match ls with
  | [] => EmptyString
  | [l] => l
  | l :: ls' => l +:+ String newline (join_lines ls')
  end.

Definition header_text : string := join_lines header_lines.

(** The names the file spells out. *)
Definition guard : string := "Speakez_Bridging_Header_h".
Definition ggml_h : string := "ggml.h".
Definition whisper_h : string := "whisper.h".

End Header.

(** ** Lexing: comments, lines, directives *)

Module Lex.

Import Header.

Definition is_char (a b : ascii) : bool := Ascii.eqb a b.

Definition is_blank (c : ascii) : bool :=
  is_char c " "%char || is_char c "009"%char || is_char c "013"%char.

Definition is_ident_char (c : ascii) : bool :=
  let n := nat_of_ascii c in
  (Nat.leb 65 n && Nat.leb n 90) || (Nat.leb 97 n && Nat.leb n 122)
  || (Nat.leb 48 n && Nat.leb n 57) || Nat.eqb n 95.

(** Where the scanner stands: in code, in a [//] comment, in a block
    comment, or inside a string literal (where comment openers are text). *)
Inductive lex_mode := InCode | InLineComment | InBlockComment | InLiteral.

(** Translation phase 3: every comment becomes one space; line feeds stay,
    so line numbers are those of the file. *)
Fixpoint strip_comments (m : lex_mode) (s : string) : string :=
  match s with
  | EmptyString => EmptyString
  | String c rest =>
    match m with
    | InCode =>
      match rest with
      | String c2 rest2 =>
        if is_char c "/" && is_char c2 "/" then
          String " " (strip_comments InLineComment rest2)
        else if is_char c "/" && is_char c2 "*" then
          String " " (strip_comments InBlockComment rest2)
        else if is_char c dquote then String c (strip_comments InLiteral rest)
        else String c (strip_comments InCode rest)
      | EmptyString => String c EmptyString
      end
    | InLineComment =>
      if is_char c newline then String c (strip_comments InCode rest)
      else strip_comments InLineComment rest
    | InBlockComment =>
      match rest with
      | String c2 rest2 =>
        if is_char c "*" && is_char c2 "/" then strip_comments InCode rest2
        else if is_char c newline then String c (strip_comments InBlockComment rest)
        else strip_comments InBlockComment rest
      | EmptyString => EmptyString
      end
    | InLiteral =>
      if is_char c dquote || is_char c newline
      then String c (strip_comments InCode rest)
      else String c (strip_comments InLiteral rest)
    end
  end.

(** The lines of a text, split at line feeds. *)
Fixpoint split_lines_from (cur : string) (s : string) : list string :=
  match s with
  | EmptyString => [String.rev cur]
  | String c rest =>
    if is_char c newline then String.rev cur :: split_lines_from EmptyString rest
    else split_lines_from (String c cur) rest
  end.

Definition split_lines (s : string) : list string :=
  split_lines_from EmptyString s.

Fixpoint skip_blanks (s : string) : string :=
  match s with
  | String c rest => if is_blank c then skip_blanks rest else s
  | EmptyString => EmptyString
  end.

(** The longest identifier prefix of [s], and what follows it. *)
Fixpoint read_ident (s : string) : string * string :=
  match s with
  | String c rest =>
    if is_ident_char c then
      let '(w, r) := read_ident rest in (String c w, r)
    else (EmptyString, s)
  | EmptyString => (EmptyString, EmptyString)
  end.

(** The text up to the closing character [close], if it occurs. *)
Fixpoint read_until (close : ascii) (s : string) : option string :=
  match s with
  | String c rest =>
    if is_char c close then Some EmptyString
    else String c <$> read_until close rest
  | EmptyString => None
  end.

Inductive directive :=
| DIfndef (m : string)
| DDefine (m : string)
| DUndef (m : string)
| DInclude (h : string)
| DEndif
| DUnsupported (text : string).

Inductive line :=
| LBlank
| LComment
| LDirective (d : directive)
| LCode (text : string).

(** The header named by an [#include] argument: ["name"] or [<name>]. *)
Definition include_target (arg : string) : option string :=
  match arg with
  | String c rest =>
    if is_char c dquote then read_until dquote rest
    else if is_char c "<" then read_until ">"%char rest
    else None
  | EmptyString => None
  end.

(** A directive line, the [#] already removed. *)
Definition parse_directive (s : string) : directive :=
  let '(name, rest) := read_ident (skip_blanks s) in
  let arg := skip_blanks rest in
  let '(m, after) := read_ident arg in
  if String.eqb name "ifndef" then
    if String.eqb m "" || negb (String.eqb (skip_blanks after) "")
    then DUnsupported s else DIfndef m
  else if String.eqb name "define" then
    if String.eqb m "" then DUnsupported s else DDefine m
  else if String.eqb name "undef" then
    if String.eqb m "" || negb (String.eqb (skip_blanks after) "")
    then DUnsupported s else DUndef m
  else if String.eqb name "include" then
    match include_target arg with
    | Some h => DInclude h
    | None => DUnsupported s
    end
  else if String.eqb name "endif" then
    if String.eqb arg "" then DEndif else DUnsupported s
  else DUnsupported s.

(** One line: [raw] as the file has it, [stripped] after comment removal. *)
Definition classify (raw stripped : string) : line :=
  match skip_blanks stripped with
  | EmptyString =>
    match skip_blanks raw with
    | EmptyString => LBlank
    | _ => LComment
    end
  | String c rest =>
    if is_char c "#" then LDirective (parse_directive rest)
    else LCode (String c rest)
  end.

Definition parse (text : string) : list line :=
  zip_with classify (split_lines text)
           (split_lines (strip_comments InCode text)).

(** The lines that are neither blank nor comment. *)
Definition is_significant (l : line) : bool :=
  match l with
  | LBlank | LComment => false
  | LDirective _ | LCode _ => true
  end.

Definition significant (ls : list line) : list line :=
  List.filter is_significant ls.

End Lex.

(** ** The preprocessor over the trace of a translation unit *)

Module Cpp.

Import Header Lex.

(** What an external header contributes once resolved: the names it
    declares and the macros it defines.  Its content is the external
    library's, opaque here. *)
Record iface := { i_decls : list string; i_macros : list string }.

(** What a translation unit has seen so far, oldest first. *)
Inductive event :=
| EDefine (m : string)
| EUndef (m : string)
| EInclude (h : string) (i : iface)
| ECode (text : string).

Definition apply_event (ms : gset string) (e : event) : gset string :=
  match e with
  | EDefine m => ms ∪ {[ m ]}
  | EUndef m => ms ∖ {[ m ]}
  | EInclude _ i => ms ∪ list_to_set (i_macros i)
  | ECode _ => ms
  end.

(** The macros defined after a trace. *)
Definition macros_of (tr : list event) : gset string :=
  foldl apply_event ∅ tr.

Definition defined (m : string) (tr : list event) : bool :=
  bool_decide (m ∈ macros_of tr).

(** Who put a declaration in scope: the including file itself, or a header. *)
Inductive origin := Own | From (h : string).

Definition decls_of_event (e : event) : list (origin * string) :=
  match e with
  | EInclude h i => (λ d, (From h, d)) <$> i_decls i
  | ECode text => [(Own, text)]
  | EDefine _ | EUndef _ => []
  end.

(** The declarations visible after a trace, in order of appearance. *)
Definition decls_of (tr : list event) : list (origin * string) :=
  flat_map decls_of_event tr.

Inductive build_error :=
| Unresolved (h : string)
| StrayEndif
| UnterminatedConditional
| UnsupportedDirective (text : string).

Inductive result (A : Type) :=
| Ok (a : A)
| Err (e : build_error).
Arguments Ok {A} a.
Arguments Err {A} e.

(** The state while a file is read: the open conditionals, innermost first
    ([true] when its group is kept), and the trace. *)
Record pp_state := { cond : list bool; seen : list event }.

Definition active (c : list bool) : bool := forallb id c.

Definition emit (e : event) (st : pp_state) : pp_state :=
  if active (cond st)
  then {| cond := cond st; seen := seen st ++ [e] |}
  else st.

Section Preprocessor.

(** The build's header search: the interface a header name resolves to in
    the context of what the translation unit has seen, or [None] when the
    header cannot be resolved. *)
Variable resolve : string → list event → option iface.

(** One directive.  A directive the lexer does not know stops the build
    wherever it stands. *)
Definition exec_directive (d : directive) (st : pp_state) : result pp_state :=
  match d with
  | DIfndef m =>
    Ok {| cond := negb (defined m (seen st)) :: cond st; seen := seen st |}
  | DDefine m => Ok (emit (EDefine m) st)
  | DUndef m => Ok (emit (EUndef m) st)
  | DInclude h =>
    if active (cond st) then
      match resolve h (seen st) with
      | Some i => Ok (emit (EInclude h i) st)
      | None => Err (Unresolved h)
      end
    else Ok st
  | DEndif =>
    match cond st with
    | [] => Err StrayEndif
    | _ :: c => Ok {| cond := c; seen := seen st |}
    end
  | DUnsupported text => Err (UnsupportedDirective text)
  end.

Definition exec_line (l : line) (st : pp_state) : result pp_state :=
  match l with
  | LBlank | LComment => Ok st
  | LDirective d => exec_directive d st
  | LCode text => Ok (emit (ECode text) st)
  end.

Fixpoint run (ls : list line) (st : pp_state) : result pp_state :=
  match ls with
  | [] => Ok st
  | l :: ls' =>
    match exec_line l st with
    | Ok st' => run ls' st'
    | Err e => Err e
    end
  end.

(** Reading a whole file into a translation unit whose trace is [tr]. *)
Definition preprocess (text : string) (tr : list event) : result (list event) :=
  match run (parse text) {| cond := []; seen := tr |} with
  | Ok st =>
    match cond st with
    | [] => Ok (seen st)
    | _ :: _ => Err UnterminatedConditional
    end
  | Err e => Err e
  end.

(** [#include "Speakez-Bridging-Header.h"] (or its import as the bridging
    header of the host project). *)
Definition include_header (tr : list event) : result (list event) :=
  preprocess header_text tr.

(** The header included [n] times in a row. *)
Fixpoint include_times (n : nat) (tr : list event) : result (list event) :=
  match n with
  | O => Ok tr
  | S n' =>
    match include_header tr with
    | Ok tr' => include_times n' tr'
    | Err e => Err e
    end
  end.

End Preprocessor.

(** Static readings of a parsed file. *)
Definition includes_of (ls : list line) : list string :=
  flat_map (λ l, match l with LDirective (DInclude h) => [h] | _ => [] end) ls.

Definition defines_of (ls : list line) : list string :=
  flat_map (λ l, match l with LDirective (DDefine m) => [m] | _ => [] end) ls.

Definition code_of (ls : list line) : list string :=
  flat_map (λ l, match l with LCode text => [text] | _ => [] end) ls.

(** The declarations of a trace that the including files wrote themselves. *)
Definition own_decls (tr : list event) : list string :=
  flat_map (λ e, match e with ECode text => [text] | _ => [] end) tr.

(** A sample of the external library, for concrete runs: a few of the names
    [ggml.h] and [whisper.h] declare. *)
Definition ggml_iface : iface :=
  {| i_decls := ["ggml_init"; "ggml_free"]; i_macros := ["GGML_MAX_DIMS"] |}.
Definition whisper_iface : iface :=
  {| i_decls := ["whisper_init_from_file"; "whisper_full"; "whisper_free"];
     i_macros := ["WHISPER_SAMPLE_RATE"] |}.

Definition lib (h : string) (_ : list event) : option iface :=
  if String.eqb h ggml_h then Some ggml_iface
  else if String.eqb h whisper_h then Some whisper_iface
  else None.

(** A build whose search path lacks [whisper.h]. *)
Definition lib_without_whisper (h : string) (_ : list event) : option iface :=
  if String.eqb h ggml_h then Some ggml_iface else None.

(** A build whose search path has neither header. *)
Definition lib_empty (_ : string) (_ : list event) : option iface := None.

(** Some code of a host file that includes the header, for concrete runs. *)
Definition host_code : list event :=
  [ECode "int main(void);"; EDefine "HOST_FLAG"; EUndef "HOST_FLAG"].

(** The macros a parsed file tests with [#ifndef], and those it undefines. *)
Definition tests_of (ls : list line) : list string :=
  flat_map (λ l, match l with LDirective (DIfndef m) => [m] | _ => [] end) ls.

Definition undefs_of (ls : list line) : list string :=
  flat_map (λ l, match l with LDirective (DUndef m) => [m] | _ => [] end) ls.




End Cpp.

(** ** What the header does, as a relation *)

Module Facts.

Import Header Lex Cpp.

(** The file, line by line, as the lexer reads it. *)
Lemma parse_header :
  parse header_text =
  [ LComment; LComment; LComment; LComment; LComment; LComment;
    LBlank;
    LDirective (DIfndef guard);
    LDirective (DDefine guard);
    LBlank;
    LComment;
    LDirective (DInclude ggml_h);
    LBlank;
    LComment;
    LDirective (DInclude whisper_h);
    LBlank;
    LDirective DEndif ].
Proof. vm_compute. reflexivity. Qed.

Lemma macros_of_app tr new :
  macros_of (tr ++ new) = foldl apply_event (macros_of tr) new.
Proof. unfold macros_of. apply foldl_app. Qed.

Lemma decls_of_app tr new : decls_of (tr ++ new) = decls_of tr ++ decls_of new.
Proof. unfold decls_of. apply flat_map_app. Qed.

Lemma own_decls_app tr new : own_decls (tr ++ new) = own_decls tr ++ own_decls new.
Proof. unfold own_decls. apply flat_map_app. Qed.

Lemma defined_true m tr : defined m tr = true ↔ m ∈ macros_of tr.
Proof. unfold defined. apply bool_decide_eq_true. Qed.

Lemma defined_false m tr : defined m tr = false ↔ m ∉ macros_of tr.
Proof. unfold defined. apply bool_decide_eq_false. Qed.

(** The events the body of the header adds when its guard is not yet
    defined. *)
Definition body (i1 i2 : iface) : list event :=
  [EDefine guard; EInclude ggml_h i1; EInclude whisper_h i2].

Section Outcome.

Variable resolve : string → list event → option iface.

(** [included tr tr']: including the header turns the trace [tr] into
    [tr'].  Either the guard is already defined and nothing happens, or
    the guard is defined, then [ggml.h] and then [whisper.h] are resolved,
    each against the trace as it stands at its own directive. *)
Inductive included (tr : list event) : list event → Prop :=
| included_again :
    defined guard tr = true →
    included tr tr
| included_first i1 i2 :
    defined guard tr = false →
    resolve ggml_h (tr ++ [EDefine guard]) = Some i1 →
    resolve whisper_h (tr ++ [EDefine guard; EInclude ggml_h i1]) = Some i2 →
    included tr (tr ++ body i1 i2).

(** [fails tr h]: including the header into [tr] stops at the directive
    that includes [h]. *)
Inductive fails (tr : list event) : string → Prop :=
| fails_ggml :
    defined guard tr = false →
    resolve ggml_h (tr ++ [EDefine guard]) = None →
    fails tr ggml_h
| fails_whisper i1 :
    defined guard tr = false →
    resolve ggml_h (tr ++ [EDefine guard]) = Some i1 →
    resolve whisper_h (tr ++ [EDefine guard; EInclude ggml_h i1]) = None →
    fails tr whisper_h.

Lemma include_header_guarded tr :
  defined guard tr = true → include_header resolve tr = Ok tr.
Proof.
  intros Hg. unfold include_header, preprocess. rewrite parse_header.
  cbn [run exec_line exec_directive cond seen]. rewrite Hg. reflexivity.
Qed.

Lemma include_header_fresh tr :
  defined guard tr = false →
  include_header resolve tr =
  match resolve ggml_h (tr ++ [EDefine guard]) with
  | None => Err (Unresolved ggml_h)
  | Some i1 =>
    match resolve whisper_h (tr ++ [EDefine guard; EInclude ggml_h i1]) with
    | None => Err (Unresolved whisper_h)
    | Some i2 => Ok (tr ++ body i1 i2)
    end
  end.
Proof.
  intros Hg. unfold include_header, preprocess. rewrite parse_header.
  cbn [run exec_line exec_directive cond seen]. rewrite Hg.
  cbn [negb emit active forallb id andb cond seen].
  destruct (resolve ggml_h (tr ++ [EDefine guard])) as [i1|]; [|reflexivity].
  cbn [run exec_line exec_directive emit active forallb id andb cond seen].
  rewrite <- (app_assoc tr [EDefine guard] [EInclude ggml_h i1]).
  cbn [app].
  destruct (resolve whisper_h (tr ++ [EDefine guard; EInclude ggml_h i1]))
    as [i2|]; [|reflexivity].
  cbn [run exec_line exec_directive emit active forallb id andb cond seen].
  rewrite <- (app_assoc tr _ [EInclude whisper_h i2]). reflexivity.
Qed.

(** The function and the relation agree, on success and on failure. *)
Lemma include_header_Ok tr tr' :
  include_header resolve tr = Ok tr' ↔ included tr tr'.
Proof.
  split.
  - destruct (defined guard tr) eqn:Hg.
    + rewrite (include_header_guarded _ Hg). intros [= <-].
      by apply included_again.
    + rewrite (include_header_fresh _ Hg).
      destruct (resolve ggml_h _) as [i1|] eqn:H1; [|discriminate].
      destruct (resolve whisper_h _) as [i2|] eqn:H2; [|discriminate].
      intros [= <-]. by apply included_first.
  - intros [Hg | i1 i2 Hg H1 H2].
    + by apply include_header_guarded.
    + by rewrite (include_header_fresh _ Hg), H1, H2.
Qed.

Lemma include_header_Err tr e :
  include_header resolve tr = Err e ↔ ∃ h, e = Unresolved h ∧ fails tr h.
Proof.
  split.
  - destruct (defined guard tr) eqn:Hg.
    + by rewrite (include_header_guarded _ Hg).
    + rewrite (include_header_fresh _ Hg).
      destruct (resolve ggml_h _) as [i1|] eqn:H1.
      * destruct (resolve whisper_h _) as [i2|] eqn:H2; [discriminate|].
        intros [= <-]. exists whisper_h. split; [done|].
        by eapply fails_whisper.
      * intros [= <-]. exists ggml_h. split; [done|]. by apply fails_ggml.
  - intros (h & -> & [Hg H1 | i1 Hg H1 H2]);
      by rewrite (include_header_fresh _ Hg), H1, ?H2.
Qed.

(** After a successful inclusion the guard is defined. *)
Lemma included_guard_defined tr tr' :
  included tr tr' → defined guard tr' = true.
Proof.
  intros [Hg | i1 i2 _ _ _]; [done|].
  apply defined_true. rewrite macros_of_app. cbn. set_solver.
Qed.

End Outcome.

End Facts.

(** ** The claims of the specification *)

Import Header Lex Cpp Facts.

(** *** C1: the content of the file *)

(** C1, as stated: the entire content of the file is two preprocessor
    include directives.  Even with blank and comment lines left aside, the
    file as written has more: its lines that are neither blank nor comment
    are not just the two include directives. *)
Lemma C1_content_is_not_two_includes :
  significant (parse header_text)
  ≠ [LDirective (DInclude ggml_h); LDirective (DInclude whisper_h)].
Proof. rewrite parse_header. cbn. discriminate. Qed.

(** C1, amended: apart from blank and comment lines, the 17 lines of the
    file are exactly five preprocessor directives, the include guard
    ([#ifndef], [#define], [#endif] of [Speakez_Bridging_Header_h]) around
    the two include directives of [ggml.h] and [whisper.h]; no line of the
    file is C code, so beyond the directives there are zero lines of
    original logic. *)
Theorem C1_content_amended :
  length header_lines = 17
  ∧ length (parse header_text) = 17
  ∧ significant (parse header_text)
    = [ LDirective (DIfndef guard);
        LDirective (DDefine guard);
        LDirective (DInclude ggml_h);
        LDirective (DInclude whisper_h);
        LDirective DEndif ]
  ∧ includes_of (parse header_text) = [ggml_h; whisper_h]
  ∧ code_of (parse header_text) = [].
Proof. rewrite parse_header. repeat split. Qed.

(** *** C2: the two external interfaces *)

(** C2: the headers the file references are exactly [ggml.h] and
    [whisper.h].  In every build (every header search [resolve], every
    translation unit [tr]) an inclusion that succeeds brings in no header and
    no declaration but theirs, and an inclusion that fails fails because one
    of the two could not be resolved: no other error arises from this file. *)
Theorem C2_only_ggml_and_whisper
    (resolve : string → list event → option iface) (tr : list event) :
  includes_of (parse header_text) = [ggml_h; whisper_h]
  ∧ match include_header resolve tr with
    | Ok tr' =>
      ∃ new, tr' = tr ++ new
        ∧ (∀ h i, EInclude h i ∈ new → h = ggml_h ∨ h = whisper_h)
        ∧ (∀ o d, (o, d) ∈ decls_of new → o = From ggml_h ∨ o = From whisper_h)
    | Err e =>
      ∃ h seen, (h = ggml_h ∨ h = whisper_h)
        ∧ resolve h seen = None
        ∧ e = Unresolved h
    end.
Proof.
  split; [by rewrite parse_header|].
  destruct (include_header resolve tr) as [tr'|e] eqn:Hrun.
  - apply include_header_Ok in Hrun as [Hg | i1 i2 Hg H1 H2].
    + exists []. rewrite app_nil_r. split; [done|].
      split; intros ? ? Hin; cbn in Hin; inversion Hin.
    + exists (body i1 i2). split; [done|]. split.
      * intros h i Hin. unfold body in Hin.
        rewrite !elem_of_cons, elem_of_nil in Hin.
        destruct Hin as [[=] | [[= -> _] | [[= -> _] | []]]]; auto.
      * intros o d Hin. unfold body, decls_of in Hin. cbn in Hin.
        rewrite app_nil_r in Hin.
        apply elem_of_app in Hin as [Hin|Hin];
          apply list_elem_of_fmap in Hin as (x & [= -> ->] & _); auto.
  - apply include_header_Err in Hrun as (h & -> & [Hg H1 | i1 Hg H1 H2]).
    + exists ggml_h, (tr ++ [EDefine guard]). auto.
    + exists whisper_h, (tr ++ [EDefine guard; EInclude ggml_h i1]). auto.
Qed.

(** *** C3: nothing of its own but the guard *)

(** C3, as stated: the file defines no entity and has no state or control
    flow of its own.  Both fail on the include guard.  An inclusion puts
    into the translation unit an event that is no inclusion of an external
    header (the definition of [Speakez_Bridging_Header_h], in the empty
    unit with the sample library); and with one and the same header search
    the outcome depends on the state of the unit (with no header on the
    search path the inclusion fails in the empty unit and succeeds in the
    unit that has the guard defined). *)
Lemma C3_guard_is_defined_and_tested :
  ¬ (∀ (resolve : string → list event → option iface) (tr tr' : list event),
       include_header resolve tr = Ok tr' →
       ∀ e, e ∈ tr' → e ∈ tr ∨ ∃ h i, e = EInclude h i)
  ∧ ¬ (∀ (r : string → option iface) (tr1 tr2 : list event) (e : build_error),
         include_header (λ h _, r h) tr1 = Err e →
         include_header (λ h _, r h) tr2 = Err e).
Proof.
  split.
  - intros Hnone.
    assert (Hrun : include_header lib [] = Ok (body ggml_iface whisper_iface))
      by reflexivity.
    destruct (Hnone lib [] _ Hrun (EDefine guard)) as [Hin | (h & i & Heq)].
    + unfold body. apply elem_of_cons. by left.
    + inversion Hin.
    + discriminate Heq.
  - intros Hsame.
    assert (Hfail : include_header (λ h _, (λ _ : string, @None iface) h) []
                    = Err (Unresolved ggml_h)) by reflexivity.
    pose proof (Hsame (λ _, None) [] [EDefine guard] _ Hfail) as Hok.
    vm_compute in Hok. discriminate Hok.
Qed.

(** C3, amended: apart from its include guard the file has nothing of its
    own.  No line of the file is C code (no data structure, protocol or
    computation), it undefines nothing, and the one macro it tests and the
    one macro it defines are both [Speakez_Bridging_Header_h].  For every
    translation unit that includes it:
    - when the guard is defined the inclusion does nothing;
    - an inclusion that succeeds only appends, every event it appends is the
      definition of the guard or the inclusion of [ggml.h] or of
      [whisper.h], so the declarations written by the including files are
      as they were, the earlier declarations stay a prefix, every macro
      stays defined, and the guard is the one piece of state the file
      itself changes;
    - with a header search that does not look at the unit, two units in
      which the guard has the same status get the same events appended, or
      fail with the same error: the test of the guard is the file's only
      control flow;
    - an inclusion is never rejected by a check of the file's own, the only
      build error being a header that could not be resolved. *)
Theorem C3_only_the_guard_amended
    (resolve : string → list event → option iface) (tr : list event) :
  code_of (parse header_text) = []
  ∧ defines_of (parse header_text) = [guard]
  ∧ tests_of (parse header_text) = [guard]
  ∧ undefs_of (parse header_text) = []
  ∧ (guard ∈ macros_of tr → include_header resolve tr = Ok tr)
  ∧ (∀ tr', include_header resolve tr = Ok tr' →
       ∃ new, tr' = tr ++ new
         ∧ (∀ e, e ∈ new →
              e = EDefine guard
              ∨ ∃ i, e = EInclude ggml_h i ∨ e = EInclude whisper_h i)
         ∧ (new ≠ [] → (guard ∉ macros_of tr) ∧ guard ∈ macros_of tr')
         ∧ own_decls tr' = own_decls tr
         ∧ macros_of tr ⊆ macros_of tr'
         ∧ decls_of tr `prefix_of` decls_of tr'
         ∧ (∀ d, (Own, d) ∈ decls_of tr' → (Own, d) ∈ decls_of tr))
  ∧ (∀ (r : string → option iface) (tr2 : list event),
       defined guard tr = defined guard tr2 →
       match include_header (λ h _, r h) tr,
             include_header (λ h _, r h) tr2 with
       | Ok a, Ok b => ∃ new, a = tr ++ new ∧ b = tr2 ++ new
       | Err e1, Err e2 => e1 = e2
       | _, _ => False
       end)
  ∧ (∀ e, include_header resolve tr = Err e → ∃ h, e = Unresolved h).
Proof.
  split; [by rewrite parse_header|]. split; [by rewrite parse_header|].
  split; [by rewrite parse_header|]. split; [by rewrite parse_header|].
  split; [|split; [|split]].
  - intros Hg. by apply include_header_guarded, defined_true.
  - intros tr' Hrun.
    apply include_header_Ok in Hrun as [Hg | i1 i2 Hg H1 H2].
    + exists []. rewrite app_nil_r. split; [done|]. split.
      { intros e He. inversion He. }
      repeat split; done.
    + exists (body i1 i2). split; [done|]. split.
      { intros e He. unfold body in He.
        rewrite !elem_of_cons, elem_of_nil in He.
        destruct He as [-> | [-> | [-> | []]]]; eauto. }
      split.
      { intros _. split; [by apply defined_false|].
        rewrite macros_of_app. cbn.
        rewrite !elem_of_union, elem_of_singleton. auto. }
      rewrite own_decls_app, decls_of_app, macros_of_app. cbn.
      rewrite !app_nil_r. split; [done|]. split.
      { intros m Hm. rewrite !elem_of_union. auto. }
      split; [by apply prefix_app_r|].
      intros d Hin. apply elem_of_app in Hin as [Hin|Hin]; [done|].
      apply elem_of_app in Hin as [Hin|Hin];
        by apply list_elem_of_fmap in Hin as (x & [=] & _).
  - intros r tr2 Hsame. destruct (defined guard tr) eqn:Hg.
    + rewrite (include_header_guarded _ _ Hg).
      rewrite (include_header_guarded _ _ (eq_sym Hsame)).
      exists []. by rewrite !app_nil_r.
    + rewrite (include_header_fresh _ _ Hg).
      rewrite (include_header_fresh _ _ (eq_sym Hsame)).
      destruct (r ggml_h) as [i1|]; [|done].
      destruct (r whisper_h) as [i2|]; [|done].
      by exists (body i1 i2).
  - intros e Hrun. apply include_header_Err in Hrun as (h & -> & _). eauto.
Qed.

(** *** C4: failures are build failures *)



(** *** C5: the frame of an inclusion *)

(** C5, as stated: everything outside the two included interfaces is left
    unchanged by the file.  Read over the macros of the including
    translation unit this fails: a macro that no included interface defines
    can be undefined before the inclusion and defined after it.  In the
    empty translation unit, with the sample library, the guard macro
    [Speakez_Bridging_Header_h] is such a macro. *)
Lemma C5_guard_macro_is_changed :
  ¬ (∀ (resolve : string → list event → option iface) (tr tr' : list event),
       include_header resolve tr = Ok tr' →
       ∀ m, (∀ h i, EInclude h i ∈ tr' → m ∉ i_macros i) →
            (m ∈ macros_of tr' ↔ m ∈ macros_of tr)).
Proof.
  intros Hframe.
  assert (Hrun : include_header lib [] = Ok (body ggml_iface whisper_iface))
    by reflexivity.
  specialize (Hframe lib [] _ Hrun guard).
  assert (Hin : guard ∈ macros_of (body ggml_iface whisper_iface))
    by (by apply defined_true).
  assert (Hout : guard ∉ macros_of []) by (by apply defined_false).
  apply Hout, Hframe; [|exact Hin].
  intros h i He. unfold body in He.
  rewrite !elem_of_cons, elem_of_nil in He.
  destruct He as [[=] | [[= _ ->] | [[= _ ->] | []]]]; cbn;
    rewrite ?elem_of_cons, elem_of_nil; intros [[=] | []].
Qed.

(** C5, amended: the file adds no code of its own to the translation unit
    (no file format, wire protocol, CLI surface, environment variable or
    persisted state can come from it), and everything outside the two
    included interfaces is left unchanged by it, except that the include
    guard macro [Speakez_Bridging_Header_h] becomes defined: every other
    macro that no included interface defines is defined after the inclusion
    exactly when it was before, and every declaration that no included
    interface declares is visible after exactly when it was before. *)
Theorem C5_frame_amended
    (resolve : string → list event → option iface) (tr tr' : list event) :
  include_header resolve tr = Ok tr' →
  ∃ new, tr' = tr ++ new
    ∧ own_decls new = []
    ∧ (∀ h i, EInclude h i ∈ new → h = ggml_h ∨ h = whisper_h)
    ∧ (∀ m, m ≠ guard →
         (∀ h i, EInclude h i ∈ new → m ∉ i_macros i) →
         (m ∈ macros_of tr' ↔ m ∈ macros_of tr))
    ∧ (∀ o d,
         (∀ h i, EInclude h i ∈ new → ¬ (o = From h ∧ d ∈ i_decls i)) →
         ((o, d) ∈ decls_of tr' ↔ (o, d) ∈ decls_of tr)).
Proof.
  intros Hrun. apply include_header_Ok in Hrun as [Hg | i1 i2 Hg H1 H2].
  - exists []. rewrite app_nil_r. repeat split; try done.
    intros h i Hin. inversion Hin.
  - exists (body i1 i2). split; [done|]. split; [done|].
    assert (Hg1 : EInclude ggml_h i1 ∈ body i1 i2)
      by (unfold body; rewrite !elem_of_cons; auto).
    assert (Hw2 : EInclude whisper_h i2 ∈ body i1 i2)
      by (unfold body; rewrite !elem_of_cons; auto).
    split; [|split].
    + intros h i Hin. unfold body in Hin.
      rewrite !elem_of_cons, elem_of_nil in Hin.
      destruct Hin as [[=] | [[= -> _] | [[= -> _] | []]]]; auto.
    + intros m Hm Hout. rewrite macros_of_app. cbn.
      pose proof (Hout _ _ Hg1) as Ho1. pose proof (Hout _ _ Hw2) as Ho2.
      rewrite !elem_of_union, elem_of_singleton, !elem_of_list_to_set.
      tauto.
    + intros o d Hout. rewrite decls_of_app. cbn. rewrite app_nil_r.
      rewrite !elem_of_app, !list_elem_of_fmap. split; [|tauto].
      intros [Hin | [(x & [= -> ->] & Hx) | (x & [= -> ->] & Hx)]]; [done| |].
      * destruct (Hout _ _ Hg1). auto.
      * destruct (Hout _ _ Hw2). auto.
Qed.

Lemma C5_frame_amended_witness :
  include_header lib [] = Ok (body ggml_iface whisper_iface)
  ∧ ∃ new, body ggml_iface whisper_iface = [] ++ new
    ∧ own_decls new = []
    ∧ (∀ h i, EInclude h i ∈ new → h = ggml_h ∨ h = whisper_h)
    ∧ (∀ m, m ≠ guard →
         (∀ h i, EInclude h i ∈ new → m ∉ i_macros i) →
         (m ∈ macros_of (body ggml_iface whisper_iface) ↔ m ∈ macros_of []))
    ∧ (∀ o d,
         (∀ h i, EInclude h i ∈ new → ¬ (o = From h ∧ d ∈ i_decls i)) →
         ((o, d) ∈ decls_of (body ggml_iface whisper_iface)
          ↔ (o, d) ∈ decls_of [])).
Proof.
  split; [reflexivity|].
  apply (C5_frame_amended lib [] (body ggml_iface whisper_iface)).
  reflexivity.
Defined.

(** *** C7: the order of the two includes *)

(** C7: the file lists [ggml.h] before [whisper.h], and every preprocessing
    that reads the body of the header includes both, in that order.  When
    the guard is not defined and the two headers resolve, each at its own
    directive, the inclusion succeeds and appends the inclusion of [ggml.h]
    and then that of [whisper.h].  Conversely an inclusion that succeeds
    either found the guard defined and did nothing, or found it undefined
    and resolved [whisper.h] against a trace that already holds the
    inclusion of [ggml.h], with every declaration of [ggml.h] visible and
    no inclusion of [whisper.h] by this file yet. *)
Theorem C7_ggml_before_whisper
    (resolve : string → list event → option iface) (tr : list event) :
  includes_of (parse header_text) = [ggml_h; whisper_h]
  ∧ (∀ i1 i2,
       guard ∉ macros_of tr →
       resolve ggml_h (tr ++ [EDefine guard]) = Some i1 →
       resolve whisper_h (tr ++ [EDefine guard; EInclude ggml_h i1]) = Some i2 →
       include_header resolve tr
       = Ok ((tr ++ [EDefine guard; EInclude ggml_h i1])
             ++ [EInclude whisper_h i2]))
  ∧ (∀ tr', include_header resolve tr = Ok tr' →
       (guard ∈ macros_of tr ∧ tr' = tr)
       ∨ ((guard ∉ macros_of tr)
          ∧ ∃ i1 i2,
              resolve ggml_h (tr ++ [EDefine guard]) = Some i1
              ∧ resolve whisper_h (tr ++ [EDefine guard; EInclude ggml_h i1])
                = Some i2
              ∧ tr' = (tr ++ [EDefine guard; EInclude ggml_h i1])
                      ++ [EInclude whisper_h i2]
              ∧ (∀ d, d ∈ i_decls i1 →
                   (From ggml_h, d)
                   ∈ decls_of (tr ++ [EDefine guard; EInclude ggml_h i1]))
              ∧ (∀ i, EInclude whisper_h i
                      ∉ [EDefine guard; EInclude ggml_h i1]))).
Proof.
  split; [by rewrite parse_header|]. split.
  - intros i1 i2 Hg H1 H2. apply defined_false in Hg.
    rewrite (include_header_fresh _ _ Hg), H1, H2.
    unfold body. by rewrite <- app_assoc.
  - intros tr' Hrun.
    apply include_header_Ok in Hrun as [Hg | i1 i2 Hg H1 H2].
    + left. split; [by apply defined_true|done].
    + right. split; [by apply defined_false|].
      exists i1, i2. split; [done|]. split; [done|]. split.
      * by rewrite <- app_assoc.
      * split.
        -- intros d Hd. rewrite decls_of_app. cbn. rewrite app_nil_r.
           apply elem_of_app. right. apply list_elem_of_fmap. by exists d.
        -- intros i Hin. rewrite !elem_of_cons, elem_of_nil in Hin.
           by destruct Hin as [[=] | [[=] | []]].
Qed.

(** The inclusion into a unit that already holds code of the host: the
    guard is not defined there, and both inclusions are appended, [ggml.h]
    first. *)
Lemma C7_ggml_before_whisper_witness :
  (guard ∉ macros_of host_code)
  ∧ lib ggml_h (host_code ++ [EDefine guard]) = Some ggml_iface
  ∧ lib whisper_h (host_code ++ [EDefine guard; EInclude ggml_h ggml_iface])
    = Some whisper_iface
  ∧ include_header lib host_code
    = Ok ((host_code ++ [EDefine guard; EInclude ggml_h ggml_iface])
          ++ [EInclude whisper_h whisper_iface]).
Proof.
  assert (Hg : guard ∉ macros_of host_code) by (by apply defined_false).
  split; [exact Hg|]. split; [reflexivity|]. split; [reflexivity|].
  destruct (C7_ggml_before_whisper lib host_code) as (_ & Hocc & _).
  apply (Hocc ggml_iface whisper_iface Hg); reflexivity.
Defined.

(** *** C8: the include guard makes inclusion idempotent *)

(** C8: after a first successful inclusion the guard
    [Speakez_Bridging_Header_h] is defined, and including the header again,
    any number of times and whatever the header search has become, succeeds
    and leaves the translation unit exactly as the first inclusion left it:
    the same trace, hence the same visible declarations. *)
Theorem C8_inclusion_is_idempotent
    (resolve : string → list event → option iface) (tr tr' : list event) :
  include_header resolve tr = Ok tr' →
  defined guard tr' = true
  ∧ (∀ resolve', include_header resolve' tr' = Ok tr')
  ∧ (∀ resolve' n, include_times resolve' n tr' = Ok tr')
  ∧ (∀ n, include_times resolve (S n) tr = Ok tr')
  ∧ (∀ resolve' n tr'',
       include_times resolve' n tr' = Ok tr'' → decls_of tr'' = decls_of tr').
Proof.
  intros Hrun.
  assert (Hg : defined guard tr' = true).
  { apply include_header_Ok in Hrun. by eapply included_guard_defined. }
  assert (Hagain : ∀ resolve' n, include_times resolve' n tr' = Ok tr').
  { intros resolve' n. induction n as [|n IH]; [done|].
    cbn [include_times]. by rewrite (include_header_guarded _ _ Hg). }
  split; [done|]. split; [|split; [done|split]].
  - intros resolve'. by apply include_header_guarded.
  - intros n. cbn [include_times]. rewrite Hrun. apply Hagain.
  - intros resolve' n tr'' Hn. rewrite Hagain in Hn. by injection Hn as <-.
Qed.

Lemma C8_inclusion_is_idempotent_witness :
  include_header lib [] = Ok (body ggml_iface whisper_iface)
  ∧ include_times lib_without_whisper 2 (body ggml_iface whisper_iface)
    = Ok (body ggml_iface whisper_iface)
  ∧ include_times lib 3 [] = Ok (body ggml_iface whisper_iface).
Proof.
  destruct (C8_inclusion_is_idempotent lib [] (body ggml_iface whisper_iface))
    as (_ & _ & Hany & Hsame & _); [reflexivity|].
  split; [reflexivity|]. split; [apply Hany | apply (Hsame 2)].
Defined.

(** *** C9: the only name of its own *)

(** C9: the only name the file defines is the guard macro: its one
    [#define] is that of [Speakez_Bridging_Header_h] and it has no line of
    C code.  Every event an inclusion adds to the translation unit is that
    definition or the inclusion of [ggml.h] or of [whisper.h]; so every
    macro defined afterwards was defined before, is the guard, or is
    defined by one of the two headers, and every declaration visible
    afterwards was visible before or is declared by one of the two
    headers. *)
Theorem C9_only_the_guard_is_defined
    (resolve : string → list event → option iface) (tr tr' : list event) :
  include_header resolve tr = Ok tr' →
  defines_of (parse header_text) = [guard]
  ∧ code_of (parse header_text) = []
  ∧ ∃ new, tr' = tr ++ new
      ∧ (∀ e, e ∈ new →
           e = EDefine guard
           ∨ ∃ i, e = EInclude ggml_h i ∨ e = EInclude whisper_h i)
      ∧ (∀ m, m ∈ macros_of tr' →
           m ∈ macros_of tr ∨ m = guard
           ∨ ∃ h i, (h = ggml_h ∨ h = whisper_h)
                    ∧ EInclude h i ∈ new ∧ m ∈ i_macros i)
      ∧ (∀ o d, (o, d) ∈ decls_of tr' →
           (o, d) ∈ decls_of tr
           ∨ ∃ h i, (h = ggml_h ∨ h = whisper_h) ∧ o = From h
                    ∧ EInclude h i ∈ new ∧ d ∈ i_decls i).
Proof.
  intros Hrun. split; [by rewrite parse_header|].
  split; [by rewrite parse_header|].
  apply include_header_Ok in Hrun as [Hg | i1 i2 Hg H1 H2].
  - exists []. rewrite app_nil_r. split; [done|]. split.
    + intros e He. inversion He.
    + split; auto.
  - exists (body i1 i2). split; [done|].
    assert (Hg1 : EInclude ggml_h i1 ∈ body i1 i2)
      by (unfold body; rewrite !elem_of_cons; auto).
    assert (Hw2 : EInclude whisper_h i2 ∈ body i1 i2)
      by (unfold body; rewrite !elem_of_cons; auto).
    split; [|split].
    + intros e He. unfold body in He.
      rewrite !elem_of_cons, elem_of_nil in He.
      destruct He as [-> | [-> | [-> | []]]]; eauto.
    + intros m. rewrite macros_of_app. cbn.
      rewrite !elem_of_union, elem_of_singleton, !elem_of_list_to_set.
      intros [[[Hm | ->] | Hm] | Hm]; auto.
      * right. right. exists ggml_h, i1. auto.
      * right. right. exists whisper_h, i2. auto.
    + intros o d. rewrite decls_of_app. cbn. rewrite app_nil_r.
      rewrite !elem_of_app, !list_elem_of_fmap.
      intros [Hin | [(x & [= -> ->] & Hx) | (x & [= -> ->] & Hx)]]; auto.
      * right. exists ggml_h, i1. auto.
      * right. exists whisper_h, i2. auto.
Qed.

Lemma C9_only_the_guard_is_defined_witness :
  include_header lib [] = Ok (body ggml_iface whisper_iface)
  ∧ defines_of (parse header_text) = [guard]
  ∧ code_of (parse header_text) = []
  ∧ ∃ new, body ggml_iface whisper_iface = [] ++ new
      ∧ (∀ e, e ∈ new →
           e = EDefine guard
           ∨ ∃ i, e = EInclude ggml_h i ∨ e = EInclude whisper_h i)
      ∧ (∀ m, m ∈ macros_of (body ggml_iface whisper_iface) →
           m ∈ macros_of [] ∨ m = guard
           ∨ ∃ h i, (h = ggml_h ∨ h = whisper_h)
                    ∧ EInclude h i ∈ new ∧ m ∈ i_macros i)
      ∧ (∀ o d, (o, d) ∈ decls_of (body ggml_iface whisper_iface) →
           (o, d) ∈ decls_of []
           ∨ ∃ h i, (h = ggml_h ∨ h = whisper_h) ∧ o = From h
                    ∧ EInclude h i ∈ new ∧ d ∈ i_decls i).
Proof.
  split; [reflexivity|].
  apply (C9_only_the_guard_is_defined lib [] (body ggml_iface whisper_iface)).
  reflexivity.
Defined.

(** ** Further behaviour of the header *)

(** An inclusion returns the trace it was given only when the guard is
    defined: the body always appends. *)
Lemma include_header_same
    (resolve : string → list event → option iface) (tr : list event) :
  include_header resolve tr = Ok tr → defined guard tr = true.
Proof.
  intros Hrun. destruct (defined guard tr) eqn:Hg; [done|].
  rewrite (include_header_fresh _ _ Hg) in Hrun.
  destruct (resolve ggml_h _) as [i1|]; [|discriminate].
  destruct (resolve whisper_h _) as [i2|]; [|discriminate].
  injection Hrun as Hrun. apply (f_equal length) in Hrun.
  rewrite length_app in Hrun. cbn in Hrun. lia.
Qed.

(** X1: an inclusion is a no-op exactly when the guard macro is already
    defined in the including translation unit, by an earlier inclusion or
    by anything else that defines a macro of that name.  Then it succeeds
    whatever the header search is, even with both headers missing; and when
    the guard is not defined an inclusion never returns the trace
    unchanged. *)
Theorem X1_noop_iff_guard_defined
    (resolve : string → list event → option iface) (tr : list event) :
  include_header resolve tr = Ok tr ↔ guard ∈ macros_of tr.
Proof.
  rewrite <- defined_true. split.
  - apply include_header_same.
  - apply include_header_guarded.
Qed.

(** X2: when the body of the header is read, the build error names the
    first header that cannot be resolved, in the order of the file:
    [ggml.h] exactly when [ggml.h] does not resolve at its directive,
    whether [whisper.h] would or not; [whisper.h] exactly when [ggml.h]
    resolved and [whisper.h] does not resolve after it. *)
Theorem X2_first_unresolved_header_is_reported
    (resolve : string → list event → option iface) (tr : list event) :
  guard ∉ macros_of tr →
  (include_header resolve tr = Err (Unresolved ggml_h)
   ↔ resolve ggml_h (tr ++ [EDefine guard]) = None)
  ∧ (include_header resolve tr = Err (Unresolved whisper_h)
     ↔ ∃ i1, resolve ggml_h (tr ++ [EDefine guard]) = Some i1
             ∧ resolve whisper_h (tr ++ [EDefine guard; EInclude ggml_h i1])
               = None).
Proof.
  intros Hg. apply defined_false in Hg.
  rewrite (include_header_fresh _ _ Hg).
  destruct (resolve ggml_h (tr ++ [EDefine guard])) as [i1|] eqn:H1.
  - destruct (resolve whisper_h (tr ++ [EDefine guard; EInclude ggml_h i1]))
      as [i2|] eqn:H2.
    + split; [split; discriminate|]. split; [discriminate|].
      intros (i & Hi & Hw). injection Hi as <-. congruence.
    + split; [split; discriminate|]. split; [eauto|done].
  - split; [done|]. split; [discriminate|].
    intros (i & Hi & _). discriminate.
Qed.

Lemma X2_first_unresolved_header_is_reported_witness :
  (guard ∉ macros_of [])
  ∧ lib_empty ggml_h ([] ++ [EDefine guard]) = None
  ∧ include_header lib_empty [] = Err (Unresolved ggml_h).
Proof.
  assert (Hg : guard ∉ macros_of []) by (by apply defined_false).
  split; [exact Hg|]. split; [reflexivity|].
  apply (X2_first_unresolved_header_is_reported lib_empty [] Hg).
  reflexivity.
Defined.

(** X3: a successful inclusion that reads the body exposes both
    interfaces in full.  The macros defined afterwards are those defined
    before, the guard, and every macro of [ggml.h] and of [whisper.h]; the
    declarations visible afterwards are those visible before, followed by
    every declaration of [ggml.h] and then every declaration of
    [whisper.h], in the order each header gives them. *)
Theorem X3_exposes_both_interfaces_in_full
    (resolve : string → list event → option iface) (tr tr' : list event) :
  guard ∉ macros_of tr →
  include_header resolve tr = Ok tr' →
  ∃ i1 i2,
    resolve ggml_h (tr ++ [EDefine guard]) = Some i1
    ∧ resolve whisper_h (tr ++ [EDefine guard; EInclude ggml_h i1]) = Some i2
    ∧ macros_of tr'
      = macros_of tr ∪ {[ guard ]}
        ∪ list_to_set (i_macros i1) ∪ list_to_set (i_macros i2)
    ∧ decls_of tr'
      = decls_of tr
        ++ ((λ d, (From ggml_h, d)) <$> i_decls i1)
        ++ ((λ d, (From whisper_h, d)) <$> i_decls i2).
Proof.
  intros Hg Hrun. apply defined_false in Hg.
  apply include_header_Ok in Hrun as [Hg' | i1 i2 _ H1 H2]; [congruence|].
  exists i1, i2. split; [done|]. split; [done|].
  rewrite macros_of_app, decls_of_app. cbn. by rewrite app_nil_r.
Qed.

Lemma X3_exposes_both_interfaces_in_full_witness :
  (guard ∉ macros_of [])
  ∧ include_header lib [] = Ok (body ggml_iface whisper_iface)
  ∧ ∃ i1 i2,
      lib ggml_h ([] ++ [EDefine guard]) = Some i1
      ∧ lib whisper_h ([] ++ [EDefine guard; EInclude ggml_h i1]) = Some i2
      ∧ macros_of (body ggml_iface whisper_iface)
        = macros_of [] ∪ {[ guard ]}
          ∪ list_to_set (i_macros i1) ∪ list_to_set (i_macros i2)
      ∧ decls_of (body ggml_iface whisper_iface)
        = decls_of []
          ++ ((λ d, (From ggml_h, d)) <$> i_decls i1)
          ++ ((λ d, (From whisper_h, d)) <$> i_decls i2).
Proof.
  assert (Hg : guard ∉ macros_of []) by (by apply defined_false).
  split; [exact Hg|]. split; [reflexivity|].
  apply (X3_exposes_both_interfaces_in_full lib []
           (body ggml_iface whisper_iface) Hg).
  reflexivity.
Defined.

(** X4: the guard protects only while it stays defined.  Once the
    including translation unit undefines [Speakez_Bridging_Header_h]
    (after any trace, so also after a first inclusion), the guard is no
    longer defined and the next inclusion reads the body again: if it
    succeeds it defines the guard anew and appends the inclusions of
    [ggml.h] and [whisper.h] once more, and it is never a no-op. *)
Theorem X4_undef_reopens_the_header
    (resolve : string → list event → option iface) (tr : list event) :
  (guard ∉ macros_of (tr ++ [EUndef guard]))
  ∧ (∀ tr', include_header resolve (tr ++ [EUndef guard]) = Ok tr' →
       ∃ i1 i2, tr' = (tr ++ [EUndef guard]) ++ body i1 i2
                ∧ guard ∈ macros_of tr')
  ∧ include_header resolve (tr ++ [EUndef guard]) ≠ Ok (tr ++ [EUndef guard]).
Proof.
  assert (Hg : guard ∉ macros_of (tr ++ [EUndef guard])).
  { rewrite macros_of_app. cbn. rewrite elem_of_difference, elem_of_singleton.
    tauto. }
  split; [exact Hg|]. split.
  - intros tr' Hrun.
    pose proof (proj1 (include_header_Ok _ _ _) Hrun) as Hinc.
    pose proof (included_guard_defined _ _ _ Hinc) as Hdef.
    apply defined_true in Hdef.
    destruct Hinc as [Hg' | i1 i2 _ _ _].
    + by apply defined_true in Hg'.
    + eauto.
  - intros Hrun. apply include_header_same, defined_true in Hrun. done.
Qed.

(** A macro stays defined through any events that do not undefine it. *)
Lemma defined_through (m : string) (later : list event) (ms : gset string) :
  m ∈ ms → EUndef m ∉ later → m ∈ foldl apply_event ms later.
Proof.
  revert ms. induction later as [|e later IH]; intros ms Hm Hno; [done|].
  cbn [foldl]. apply IH.
  - destruct e as [m' | m' | h i | text]; cbn.
    + apply elem_of_union. by left.
    + apply elem_of_difference. split; [done|].
      rewrite elem_of_singleton. intros ->. apply Hno, elem_of_cons. by left.
    + apply elem_of_union. by left.
    + done.
  - intros Hin. apply Hno, elem_of_cons. by right.
Qed.

(** X5: idempotence survives whatever comes between two inclusions, as
    long as nothing undefines the guard.  After a successful inclusion, and
    after any further events of the translation unit (code, definitions,
    other inclusions, undefinitions of other macros), including the header
    again, under any header search, succeeds and changes nothing. *)
Theorem X5_later_inclusion_is_noop
    (resolve resolve' : string → list event → option iface)
    (tr tr' later : list event) :
  include_header resolve tr = Ok tr' →
  EUndef guard ∉ later →
  include_header resolve' (tr' ++ later) = Ok (tr' ++ later).
Proof.
  intros Hrun Hno. apply include_header_guarded, defined_true.
  rewrite macros_of_app. apply defined_through; [|done].
  apply defined_true. apply include_header_Ok in Hrun.
  by eapply included_guard_defined.
Qed.

Lemma X5_later_inclusion_is_noop_witness :
  include_header lib [] = Ok (body ggml_iface whisper_iface)
  ∧ (EUndef guard ∉ host_code)
  ∧ include_header lib_empty (body ggml_iface whisper_iface ++ host_code)
    = Ok (body ggml_iface whisper_iface ++ host_code).
Proof.
  assert (Hno : EUndef guard ∉ host_code).
  { unfold host_code. rewrite !elem_of_cons, elem_of_nil.
    intros [H | [H | [H | []]]]; discriminate H. }
  split; [reflexivity|]. split; [exact Hno|].
  apply (X5_later_inclusion_is_noop lib lib_empty []
           (body ggml_iface whisper_iface) host_code); [reflexivity|exact Hno].
Defined.
